(** * Phase-aware coordinates of the Luanti 4D fork

    A shallow embedding of
    - [src/irr_v3d.h]: the [v4s16] coordinate, its constructors, its
      [Hash] functor, [operator==] and [toV3s16];
    - [database.cpp], as quoted in [Audit/FAILURE_MODE_FIXES.md]: the
      legacy 36-bit and the phase-aware 64-bit position codecs of
      [MapDatabase];
    - [servermap.cpp], the seed snippet before and after its fix: the
      phase-modified map generator seed;
    - [map.cpp], the block deletion snippet: removal of a block from
      [m_blocks] with [makeOrphan] before [delete].

    Fixed-width C++ integers are integers of [Z] whose wrap-around is
    written out; [size_t] is taken to be 64 bits wide. *)

From stdpp Require Import base tactics option countable relations gmap list.
From Stdlib Require Import ZArith Lia.

Local Open Scope Z_scope.

(** ** Fixed-width integers *)

Module Int.

(** The value of a [w]-bit unsigned integer holding [z]. *)
Definition wrap_u (w z : Z) : Z := z mod 2 ^ w.

(** The value of a [w]-bit two's complement integer holding [z]. *)
Definition wrap_s (w z : Z) : Z := (z + 2 ^ (w - 1)) mod 2 ^ w - 2 ^ (w - 1).

Definition to_u16 : Z -> Z := wrap_u 16.
Definition to_s16 : Z -> Z := wrap_s 16.
Definition to_s32 : Z -> Z := wrap_s 32.
Definition to_u64 : Z -> Z := wrap_u 64.
Definition to_s64 : Z -> Z := wrap_s 64.

Definition is_s16 (z : Z) : Prop := -32768 <= z <= 32767.
Definition is_u16 (z : Z) : Prop := 0 <= z <= 65535.
Definition is_u64 (z : Z) : Prop := 0 <= z <= 18446744073709551615.
Definition is_s64 (z : Z) : Prop :=
  -9223372036854775808 <= z <= 9223372036854775807.

(** Arithmetic of [s64]: the exact result, stored back into 64 bits.
    [<<] multiplies by a power of two, also for a negative operand. *)
Definition s64_add (a b : Z) : Z := to_s64 (a + b).
Definition s64_sub (a b : Z) : Z := to_s64 (a - b).
Definition s64_shl (a n : Z) : Z := to_s64 (Z.shiftl a n).

(** [>>] on a signed operand is the arithmetic shift. *)
Definition s64_shr (a n : Z) : Z := Z.shiftr a n.

(** Arithmetic of [u64] and of a 64-bit [size_t]. *)
Definition u64_add (a b : Z) : Z := to_u64 (a + b).
Definition u64_shl (a n : Z) : Z := to_u64 (Z.shiftl a n).

End Int.

Import Int.

(** ** Coordinates ([irr_v3d.h]) *)

(** [core::vector3d<s16>] *)
Record v3s16 : Set := mk_v3s16 { v3X : Z; v3Y : Z; v3Z : Z }.

(** [struct v4s16 { s16 X, Y, Z, P = 0; ... }] *)
Record v4s16 : Set := mk_v4s16 { v4X : Z; v4Y : Z; v4Z : Z; v4P : Z }.

(** Every field holds an [s16]. *)
Definition v3s16_ok (c : v3s16) : Prop :=
  is_s16 (v3X c) /\ is_s16 (v3Y c) /\ is_s16 (v3Z c).

Definition v4s16_ok (c : v4s16) : Prop :=
  is_s16 (v4X c) /\ is_s16 (v4Y c) /\ is_s16 (v4Z c) /\ is_s16 (v4P c).

#[global] Instance v4s16_eq_dec : EqDecision v4s16.
Proof. solve_decision. Defined.

#[global] Instance v4s16_countable : Countable v4s16.
Proof.
  apply (inj_countable'
           (fun c => (v4X c, v4Y c, v4Z c, v4P c))
           (fun t => match t with (x, y, z, p) => mk_v4s16 x y z p end)).
  intros []. reflexivity.
Defined.

Module V4.

(** [v4s16(s16 x, s16 y, s16 z, s16 p = 0)]: an omitted last argument
    is [None]. *)
Definition of_s16 (x y z : Z) (p : option Z) : v4s16 :=
  mk_v4s16 x y z (default 0 p).

(** [v4s16(const v3s16& pos, s16 p = 0)] *)
Definition of_v3s16 (pos : v3s16) (p : option Z) : v4s16 :=
  mk_v4s16 (v3X pos) (v3Y pos) (v3Z pos) (default 0 p).

(** [v4s16::Hash::operator()] with a 64-bit [size_t] *)
Definition Hash (pos : v4s16) : Z :=
  let x := to_u16 (v4X pos) in
  let y := to_u16 (v4Y pos) in
  let z := to_u16 (v4Z pos) in
  let p := to_u16 (v4P pos) in
  Z.lxor (Z.lxor (Z.lxor (u64_shl x 48) (u64_shl y 32)) (u64_shl z 16)) p.

(** [operator==] *)
Definition eqb (a b : v4s16) : bool :=
  (v4X a =? v4X b) && (v4Y a =? v4Y b) && (v4Z a =? v4Z b) && (v4P a =? v4P b).

(** [operator!=] *)
Definition neqb (a b : v4s16) : bool := negb (eqb a b).

(** [toV3s16] *)
Definition toV3s16 (c : v4s16) : v3s16 := mk_v3s16 (v4X c) (v4Y c) (v4Z c).

End V4.

(** The hash as the specification words it: Phase in the highest lane,
    then Z, then Y, then X in the lowest lane. *)
Definition Hash_spec (pos : v4s16) : Z :=
  let x := to_u16 (v4X pos) in
  let y := to_u16 (v4Y pos) in
  let z := to_u16 (v4Z pos) in
  let p := to_u16 (v4P pos) in
  Z.lxor (Z.lxor (Z.lxor (u64_shl p 48) (u64_shl z 32)) (u64_shl y 16)) x.

(** Exactly one of the four components differs. *)
Definition differ_in_one (a b : v4s16) : Prop :=
  (v4X a <> v4X b /\ v4Y a = v4Y b /\ v4Z a = v4Z b /\ v4P a = v4P b)
  \/ (v4X a = v4X b /\ v4Y a <> v4Y b /\ v4Z a = v4Z b /\ v4P a = v4P b)
  \/ (v4X a = v4X b /\ v4Y a = v4Y b /\ v4Z a <> v4Z b /\ v4P a = v4P b)
  \/ (v4X a = v4X b /\ v4Y a = v4Y b /\ v4Z a = v4Z b /\ v4P a <> v4P b).

(** ** Position codecs of [MapDatabase] *)

(** Legacy encoding: three axes, twelve bits apart. *)
Module Codec3.

(** [s64 getBlockAsInteger(const v3s16 &pos)] *)
Definition getBlockAsInteger (pos : v3s16) : Z :=
  s64_add (s64_add (s64_shl (v3Z pos) 24) (s64_shl (v3Y pos) 12)) (v3X pos).

(** [v3s16 getIntegerAsBlock(s64 i)] *)
Definition getIntegerAsBlock (i : Z) : v3s16 :=
  let i := s64_add i 0x800800800 in
  mk_v3s16
    (to_s16 (s64_sub (Z.land i 0xFFF) 0x800))
    (to_s16 (s64_sub (Z.land (s64_shr i 12) 0xFFF) 0x800))
    (to_s16 (s64_sub (Z.land (s64_shr i 24) 0xFFF) 0x800)).

End Codec3.

(** Phase-aware encoding: P(16) | Z(16) | Y(16) | X(16). *)
Module Codec4.

(** [s64 getBlockAsInteger(const v4s16 &pos)] *)
Definition getBlockAsInteger (pos : v4s16) : Z :=
  let x := to_u16 (v4X pos) in
  let y := to_u16 (v4Y pos) in
  let z := to_u16 (v4Z pos) in
  let p := to_u16 (v4P pos) in
  s64_add (s64_add (s64_add (s64_shl p 48) (s64_shl z 32)) (s64_shl y 16)) x.

(** [v4s16 getIntegerAsBlock(s64 i)] *)
Definition getIntegerAsBlock (i : Z) : v4s16 :=
  mk_v4s16
    (to_s16 (Z.land i 0xFFFF))
    (to_s16 (Z.land (s64_shr i 16) 0xFFFF))
    (to_s16 (Z.land (s64_shr i 32) 0xFFFF))
    (to_s16 (Z.land (s64_shr i 48) 0xFFFF)).

End Codec4.

(** The range of the legacy scheme as the specification gives it. *)
Definition legacy_range (c : v3s16) : Prop :=
  (-2047 <= v3X c <= 2047) /\ (-2047 <= v3Y c <= 2047) /\ (-2047 <= v3Z c <= 2047).

(** Every component is a signed 12-bit value. *)
Definition signed12 (c : v3s16) : Prop :=
  (-2048 <= v3X c <= 2047) /\ (-2048 <= v3Y c <= 2047) /\ (-2048 <= v3Z c <= 2047).

(** The legacy key as the specification words it: every axis offset by
    [0x800] into non-negative space first, then packed twelve bits
    apart. *)
Definition offset_pack (pos : v3s16) : Z :=
  Z.shiftl (v3Z pos + 0x800) 24 + Z.shiftl (v3Y pos + 0x800) 12 + (v3X pos + 0x800).

(** ** Phase seed ([ServerMap], [servermap.cpp]) *)

Module Seed.

(** [u16 phase_id = (u16)p.P;] *)
Definition phase_id (P : Z) : Z := to_u16 P.

(** After the fix: [u64 phase_modified_seed = base_seed + phase_id;] *)
Definition phase_modified_seed (base_seed phase_id : Z) : Z :=
  u64_add base_seed phase_id.

(** [m_emerge->mapgen->seed = (s32)phase_modified_seed;] *)
Definition mapgen_seed (base_seed phase_id : Z) : Z :=
  to_s32 (phase_modified_seed base_seed phase_id).

(** Before the fix: [s32 base_seed = (s32)getSeed();
    s32 phase_modified_seed = base_seed + phase_id;], the [s32] sum
    taken with wrap-around. *)
Definition phase_modified_seed_s32 (seed phase_id : Z) : Z :=
  let base_seed := to_s32 seed in
  to_s32 (base_seed + phase_id).

End Seed.

(** The derivation as the specification words it: the base seed plus
    the phase, modulo [2^64]. *)
Definition derive_spec (base_seed phase : Z) : Z := (base_seed + phase) mod 2 ^ 64.

(** ** The block table of [Map] ([map.cpp]) *)

Module Store.

(** Where a [MapBlock] lives; [MapBlock*] is [option addr], [None]
    the null pointer. *)
Definition addr : Set := positive.

(** What removal touches of a [MapBlock]: its orphan flag, and whether
    [delete] has run on it. *)
Record MapBlock : Set := mk_MapBlock { m_orphan : bool; released : bool }.

(** Modelled from the spec: [MapBlock::makeOrphan] ([mapblock.h] is not
    among the sources). Orphaning is "marking a Block as
    removed-from-store": the flag is set, nothing else changes. *)
Definition makeOrphan (b : MapBlock) : MapBlock :=
  {| m_orphan := true; released := released b |}.

(** [delete block]: destructor and release of the memory. *)
Definition destroy (b : MapBlock) : MapBlock :=
  {| m_orphan := m_orphan b; released := true |}.

Inductive event : Set :=
| EvOrphan (a : addr)
| EvDelete (a : addr)
| EvErase (pos : v4s16).

(** [std::unordered_map<v4s16, MapBlock*, v4s16::Hash> m_blocks], the
    blocks it points to, and what has been done to them so far. *)
Record Map : Type := mk_Map {
  m_blocks : gmap v4s16 (option addr);
  heap : gmap addr MapBlock;
  trace : list event
}.

(** Control points of the deletion snippet.
<<
    auto it = m_blocks.find(pos);            AtFind
    if (it != m_blocks.end()) {              AtTest it
        MapBlock *block = it->second;
        if (block) {
            block->makeOrphan();             AtOrphan block
            delete block;                    AtDelete block
        }
        m_blocks.erase(it);                  AtErase
    }                                        Done
>>
    [Fault] is a call through a pointer to no live block. *)
Inductive pc : Set :=
| AtFind
| AtTest (it : option (option addr))
| AtOrphan (block : addr)
| AtDelete (block : addr)
| AtErase
| Done
| Fault.

Record config : Type := mk_config { c_pos : v4s16; c_pc : pc; c_map : Map }.

Definition live (h : gmap addr MapBlock) (a : addr) : bool :=
  match h !! a with
  | Some b => negb (released b)
  | None => false
  end.

Definition step (c : config) : option config :=
  let pos := c_pos c in
  let m := c_map c in
  match c_pc c with
  | AtFind => Some (mk_config pos (AtTest (m_blocks m !! pos)) m)
  | AtTest None => Some (mk_config pos Done m)
  | AtTest (Some None) => Some (mk_config pos AtErase m)
  | AtTest (Some (Some block)) => Some (mk_config pos (AtOrphan block) m)
  | AtOrphan block =>
      if live (heap m) block then
        Some (mk_config pos (AtDelete block)
                (mk_Map (m_blocks m) (alter makeOrphan block (heap m))
                   (trace m ++ [EvOrphan block])))
      else Some (mk_config pos Fault m)
  | AtDelete block =>
      Some (mk_config pos AtErase
              (mk_Map (m_blocks m) (alter destroy block (heap m))
                 (trace m ++ [EvDelete block])))
  | AtErase =>
      Some (mk_config pos Done
              (mk_Map (delete pos (m_blocks m)) (heap m)
                 (trace m ++ [EvErase pos])))
  | Done => None
  | Fault => None
  end.

Fixpoint run (fuel : nat) (c : config) : config :=
  match fuel with
  | O => c
  | S n => match step c with
           | Some c' => run n c'
           | None => c
           end
  end.

(** The snippet, run to its end: no path has more than five steps. *)
Definition deleteBlock (m : Map) (pos : v4s16) : config :=
  run 5 (mk_config pos AtFind m).

(** Executions of the table, its mutex held for each removal: a removal
    advances by one step, or the next removal is called once the last
    one has returned. *)
Inductive sys_step : config -> config -> Prop :=
| sys_inner c c' : step c = Some c' -> sys_step c c'
| sys_call pos pos' m : sys_step (mk_config pos Done m) (mk_config pos' AtFind m).

(** Modelled from the spec: the Block Store's [get] (the lookup of
    [Map], [getBlockNoCreateNoEx], is not among the sources):
    "get(coordinate) -> Block or absent", [None] being absent. *)
Definition get (m : Map) (pos : v4s16) : option addr :=
  match m_blocks m !! pos with
  | Some (Some block) => Some block
  | _ => None
  end.

(** No block whose destruction has begun has its orphan flag unset. *)
Definition orphaned_if_released (h : gmap addr MapBlock) : Prop :=
  forall a b, h !! a = Some b -> released b = true -> m_orphan b = true.

(** Every [delete] in a trace comes strictly after a [makeOrphan] of
    the same block. *)
Definition orphan_precedes_delete (tr : list event) : Prop :=
  forall i a, tr !! i = Some (EvDelete a) ->
    exists j, (j < i)%nat /\ tr !! j = Some (EvOrphan a).

(** At [delete block] the block has just been orphaned. *)
Definition pc_inv (c : config) : Prop :=
  match c_pc c with
  | AtDelete a =>
      (forall b, heap (c_map c) !! a = Some b -> m_orphan b = true)
      /\ (exists j, trace (c_map c) !! j = Some (EvOrphan a))
  | _ => True
  end.

Definition inv (c : config) : Prop :=
  orphaned_if_released (heap (c_map c))
  /\ orphan_precedes_delete (trace (c_map c))
  /\ pc_inv c.

(** A table of one live block at (10, 20, 30, 0). *)
Definition one_block : Map :=
  mk_Map
    {[ mk_v4s16 10 20 30 0 := Some 1%positive ]}
    {[ 1%positive := mk_MapBlock false false ]}
    [].

End Store.

(** ** Wire format of a coordinate ([util/serialize.h]) *)

Module Serialize.

Section V4S16.

(** [writeS16(&data[off], v)] and [readS16(&data[off])] are not among
    the sources: they are taken as parameters, over a buffer of bytes. *)
Variable writeS16 : list Z -> nat -> Z -> list Z.
Variable readS16 : list Z -> nat -> Z.

(** [inline void writeV4S16(u8 *data, v4s16 p)] *)
Definition writeV4S16 (data : list Z) (p : v4s16) : list Z :=
  let data := writeS16 data 0 (v4X p) in
  let data := writeS16 data 2 (v4Y p) in
  let data := writeS16 data 4 (v4Z p) in
  writeS16 data 6 (v4P p).

(** [inline v4s16 readV4S16(const u8 *data)] *)
Definition readV4S16 (data : list Z) : v4s16 :=
  mk_v4s16 (readS16 data 0) (readS16 data 2) (readS16 data 4) (readS16 data 6).

End V4S16.

(** One pair the parameters can stand for: two bytes, the high one
    first. *)
Definition writeS16_be (data : list Z) (off : nat) (v : Z) : list Z :=
  <[S off := Z.land (to_u16 v) 0xFF]>
    (<[off := Z.land (Z.shiftr (to_u16 v) 8) 0xFF]> data).

Definition readS16_be (data : list Z) (off : nat) : Z :=
  to_s16 (Z.shiftl (default 0 (data !! off)) 8 + default 0 (data !! S off)).

End Serialize.

(** The keys of the legacy scheme: 36 bits, offset by [0x800800800]. *)
Definition legacy_key (k : Z) : Prop := -0x800800800 <= k <= 0x7FF7FF7FF.

(** * Properties *)

(** ** Sample values *)

Example hash_x_lane : V4.Hash (mk_v4s16 1 0 0 0) = 281474976710656.
Proof. reflexivity. Qed.

Example hash_minus_one : V4.Hash (mk_v4s16 0 0 0 (-1)) = 65535.
Proof. reflexivity. Qed.

Example enc4_sample : Codec4.getBlockAsInteger (mk_v4s16 10 20 30 0) = 128850329610.
Proof. reflexivity. Qed.

Example enc4_negative : Codec4.getBlockAsInteger (mk_v4s16 (-1) 0 0 (-1)) = -281474976645121.
Proof. reflexivity. Qed.

Example dec4_negative : Codec4.getIntegerAsBlock (-281474976645121) = mk_v4s16 (-1) 0 0 (-1).
Proof. reflexivity. Qed.

Example enc3_negative : Codec3.getBlockAsInteger (mk_v3s16 (-1) 0 0) = -1.
Proof. reflexivity. Qed.

Example dec3_negative : Codec3.getIntegerAsBlock (-1) = mk_v3s16 (-1) 0 0.
Proof. reflexivity. Qed.

Example dec3_edge :
  Codec3.getIntegerAsBlock (Codec3.getBlockAsInteger (mk_v3s16 (-2048) 2047 (-2048)))
  = mk_v3s16 (-2048) 2047 (-2048).
Proof. reflexivity. Qed.

(** Past twelve bits the legacy scheme carries into the next axis. *)
Example dec3_out_of_range :
  Codec3.getIntegerAsBlock (Codec3.getBlockAsInteger (mk_v3s16 2048 0 0))
  = mk_v3s16 (-2048) 1 0.
Proof. reflexivity. Qed.

(** The two schemes give a phase-0 coordinate different keys. *)
Example schemes_differ_at_phase0 :
  Codec3.getBlockAsInteger (mk_v3s16 0 1 0) = 4096
  /\ Codec4.getBlockAsInteger (V4.of_v3s16 (mk_v3s16 0 1 0) None) = 65536.
Proof. split; reflexivity. Qed.

Example delete_one_block :
  Store.trace (Store.c_map (Store.deleteBlock Store.one_block (mk_v4s16 10 20 30 0)))
  = [Store.EvOrphan 1%positive; Store.EvDelete 1%positive;
     Store.EvErase (mk_v4s16 10 20 30 0)].
Proof. vm_compute. reflexivity. Qed.

(** ** Arithmetic reading of the bit operations *)

Lemma land_FFFF (a : Z) : Z.land a 0xFFFF = a mod 65536.
Proof. apply (Z.land_ones a 16). lia. Qed.

Lemma land_FFF (a : Z) : Z.land a 0xFFF = a mod 4096.
Proof. apply (Z.land_ones a 12). lia. Qed.

Ltac unfold_ints :=
  unfold s64_add, s64_sub, s64_shl, s64_shr, u64_add, u64_shl,
         to_u16, to_s16, to_s32, to_u64, to_s64, wrap_u, wrap_s,
         is_s16, is_u16, is_u64, is_s64 in *.

Ltac bits_to_arith :=
  unfold_ints;
  rewrite ?land_FFFF, ?land_FFF, ?Z.shiftr_div_pow2, ?Z.shiftl_mul_pow2 by lia;
  simpl Z.sub in *;
  change (2 ^ 12) with 4096 in *;
  change (2 ^ 15) with 32768 in *;
  change (2 ^ 16) with 65536 in *;
  change (2 ^ 24) with 16777216 in *;
  change (2 ^ 31) with 2147483648 in *;
  change (2 ^ 32) with 4294967296 in *;
  change (2 ^ 48) with 281474976710656 in *;
  change (2 ^ 63) with 9223372036854775808 in *;
  change (2 ^ 64) with 18446744073709551616 in *.

Ltac solve_arith := bits_to_arith; Z.div_mod_to_equations; lia.

Lemma to_u16_range (a : Z) : is_u16 (to_u16 a).
Proof. solve_arith. Qed.

Lemma to_u16_inj (a b : Z) : is_s16 a -> is_s16 b -> to_u16 a = to_u16 b -> a = b.
Proof. intros Ha Hb. solve_arith. Qed.

(** Lanes that do not overlap: the exclusive or is the sum. *)
Lemma lxor_disjoint_lanes (hi lo n : Z) :
  0 <= n -> 0 <= lo < 2 ^ n -> Z.lxor (hi * 2 ^ n) lo = hi * 2 ^ n + lo.
Proof.
  intros Hn Hlo. symmetry. apply Z.add_nocarry_lxor.
  apply Z.bits_inj'. intros i Hi.
  rewrite Z.land_spec, Z.bits_0.
  destruct (Z.lt_ge_cases i n) as [Hlt | Hge].
  - rewrite Z.mul_pow2_bits_low by lia. reflexivity.
  - rewrite <- (Z.mod_small lo (2 ^ n)) by lia.
    rewrite Z.mod_pow2_bits_high by lia. apply andb_false_r.
Qed.

(** ** The codecs *)

Lemma codec4_decode_encode (c : v4s16) :
  v4s16_ok c -> Codec4.getIntegerAsBlock (Codec4.getBlockAsInteger c) = c.
Proof.
  destruct c as [x y z p]. intros (Hx & Hy & Hz & Hp); simpl in *.
  unfold Codec4.getIntegerAsBlock, Codec4.getBlockAsInteger; simpl.
  f_equal; solve_arith.
Qed.

Lemma codec4_encode_decode (k : Z) :
  is_s64 k -> Codec4.getBlockAsInteger (Codec4.getIntegerAsBlock k) = k.
Proof.
  intros Hk. unfold Codec4.getIntegerAsBlock, Codec4.getBlockAsInteger; simpl.
  solve_arith.
Qed.

Lemma codec4_encode_range (c : v4s16) : is_s64 (Codec4.getBlockAsInteger c).
Proof. unfold Codec4.getBlockAsInteger; simpl. solve_arith. Qed.

Lemma codec4_decode_ok (k : Z) : v4s16_ok (Codec4.getIntegerAsBlock k).
Proof.
  unfold Codec4.getIntegerAsBlock, v4s16_ok; simpl. repeat split; solve_arith.
Qed.

Lemma codec3_encode_sum (c : v3s16) :
  v3s16_ok c ->
  Codec3.getBlockAsInteger c = v3Z c * 16777216 + v3Y c * 4096 + v3X c.
Proof.
  destruct c as [x y z]. intros (Hx & Hy & Hz); simpl in *.
  unfold Codec3.getBlockAsInteger; simpl. solve_arith.
Qed.

Lemma signed12_ok (c : v3s16) : signed12 c -> v3s16_ok c.
Proof. intros (Hx & Hy & Hz). unfold v3s16_ok, is_s16. lia. Qed.

Lemma legacy_range_signed12 (c : v3s16) : legacy_range c -> signed12 c.
Proof. intros (Hx & Hy & Hz). unfold signed12. lia. Qed.

Lemma codec3_decode_encode (c : v3s16) :
  signed12 c -> Codec3.getIntegerAsBlock (Codec3.getBlockAsInteger c) = c.
Proof.
  intros Hc. rewrite (codec3_encode_sum c (signed12_ok c Hc)).
  destruct c as [x y z]. destruct Hc as (Hx & Hy & Hz); simpl in *.
  unfold Codec3.getIntegerAsBlock; simpl.
  f_equal; solve_arith.
Qed.

(** C1. Decoding an encoded coordinate gives the coordinate back: for
    every [v4s16] under the phase-aware scheme, and for every [v3s16]
    with components in [-2047, 2047] under the legacy scheme. *)
Theorem codec_roundtrip :
  (forall c : v4s16, v4s16_ok c ->
     Codec4.getIntegerAsBlock (Codec4.getBlockAsInteger c) = c)
  /\ (forall c : v3s16, legacy_range c ->
        Codec3.getIntegerAsBlock (Codec3.getBlockAsInteger c) = c).
Proof.
  split.
  - exact codec4_decode_encode.
  - intros c Hc. apply codec3_decode_encode, legacy_range_signed12, Hc.
Qed.

Lemma codec_roundtrip_witness :
  v4s16_ok (mk_v4s16 10 20 30 0)
  /\ Codec4.getIntegerAsBlock (Codec4.getBlockAsInteger (mk_v4s16 10 20 30 0))
     = mk_v4s16 10 20 30 0
  /\ legacy_range (mk_v3s16 (-2047) 5 2047)
  /\ Codec3.getIntegerAsBlock (Codec3.getBlockAsInteger (mk_v3s16 (-2047) 5 2047))
     = mk_v3s16 (-2047) 5 2047.
Proof.
  assert (H4 : v4s16_ok (mk_v4s16 10 20 30 0))
    by (unfold v4s16_ok, is_s16; simpl; lia).
  assert (H3 : legacy_range (mk_v3s16 (-2047) 5 2047))
    by (unfold legacy_range; simpl; lia).
  split; [ exact H4 | ].
  split; [ exact (proj1 codec_roundtrip _ H4) | ].
  split; [ exact H3 | ].
  exact (proj2 codec_roundtrip _ H3).
Defined.

(** C10. Under the phase-aware scheme every 64-bit key decodes to a
    coordinate that encodes back to the key, and every coordinate
    encodes to a 64-bit key that decodes back to it: the codec is a
    bijection between [v4s16] and the 64-bit keys. *)
Theorem codec4_bijection :
  (forall k : Z, is_s64 k ->
     v4s16_ok (Codec4.getIntegerAsBlock k)
     /\ Codec4.getBlockAsInteger (Codec4.getIntegerAsBlock k) = k)
  /\ (forall c : v4s16, v4s16_ok c ->
        is_s64 (Codec4.getBlockAsInteger c)
        /\ Codec4.getIntegerAsBlock (Codec4.getBlockAsInteger c) = c).
Proof.
  split.
  - intros k Hk. split; [ apply codec4_decode_ok | apply codec4_encode_decode, Hk ].
  - intros c Hc. split; [ apply codec4_encode_range | apply codec4_decode_encode, Hc ].
Qed.

Lemma codec4_bijection_witness :
  is_s64 (-281474976645121)
  /\ Codec4.getBlockAsInteger (Codec4.getIntegerAsBlock (-281474976645121))
     = -281474976645121
  /\ v4s16_ok (mk_v4s16 (-32768) 32767 (-1) 7)
  /\ Codec4.getIntegerAsBlock (Codec4.getBlockAsInteger (mk_v4s16 (-32768) 32767 (-1) 7))
     = mk_v4s16 (-32768) 32767 (-1) 7.
Proof.
  assert (Hk : is_s64 (-281474976645121)) by (unfold is_s64; lia).
  assert (Hc : v4s16_ok (mk_v4s16 (-32768) 32767 (-1) 7))
    by (unfold v4s16_ok, is_s16; simpl; lia).
  split; [ exact Hk | ].
  split; [ exact (proj2 (proj1 codec4_bijection _ Hk)) | ].
  split; [ exact Hc | ].
  exact (proj2 (proj2 codec4_bijection _ Hc)).
Defined.

(** C5, as the code has it. The legacy key is the sum of the three
    signed components twelve bits apart, with no offset, so the origin
    has key 0; the offset [0x800800800] belongs to the decoder: added to
    the key of a coordinate in range, it gives the 36-bit packing of the
    three components each offset by [0x800]. *)
Theorem legacy_encode_signed_pack (c : v3s16) :
  legacy_range c ->
  Codec3.getBlockAsInteger c = v3Z c * 2 ^ 24 + v3Y c * 2 ^ 12 + v3X c
  /\ Codec3.getBlockAsInteger c + 0x800800800 = offset_pack c
  /\ 0 <= offset_pack c < 2 ^ 36
  /\ Codec3.getBlockAsInteger (mk_v3s16 0 0 0) = 0.
Proof.
  intros Hc.
  rewrite (codec3_encode_sum c (signed12_ok c (legacy_range_signed12 c Hc))).
  destruct Hc as (Hx & Hy & Hz). unfold offset_pack.
  rewrite !Z.shiftl_mul_pow2 by lia.
  change (2 ^ 24) with 16777216. change (2 ^ 12) with 4096.
  change (2 ^ 36) with 68719476736.
  repeat split; lia.
Qed.

Lemma legacy_encode_signed_pack_witness :
  legacy_range (mk_v3s16 (-1) 2 (-3))
  /\ Codec3.getBlockAsInteger (mk_v3s16 (-1) 2 (-3)) = -50323457
  /\ Codec3.getBlockAsInteger (mk_v3s16 (-1) 2 (-3)) + 0x800800800
     = offset_pack (mk_v3s16 (-1) 2 (-3)).
Proof.
  assert (H : legacy_range (mk_v3s16 (-1) 2 (-3)))
    by (unfold legacy_range; simpl; lia).
  split; [ exact H | ].
  split; [ exact (proj1 (legacy_encode_signed_pack _ H)) | ].
  exact (proj1 (proj2 (legacy_encode_signed_pack _ H))).
Defined.

(** C5, as stated, fails: the encoder applies no offset. The origin has
    key 0 where offsetting before packing gives [0x800800800], and the
    key of (-1, 0, 0) is -1, outside the 36 non-negative bits. *)
Lemma legacy_encode_offset_counterexample :
  Codec3.getBlockAsInteger (mk_v3s16 0 0 0) = 0
  /\ offset_pack (mk_v3s16 0 0 0) = 0x800800800
  /\ Codec3.getBlockAsInteger (mk_v3s16 0 0 0) <> offset_pack (mk_v3s16 0 0 0)
  /\ Codec3.getBlockAsInteger (mk_v3s16 (-1) 0 0) = -1
  /\ offset_pack (mk_v3s16 (-1) 0 0) = 0x8008007FF.
Proof. repeat split; try reflexivity. discriminate. Qed.

(** ** The hash *)

Lemma Hash_sum (c : v4s16) :
  V4.Hash c =
    to_u16 (v4X c) * 281474976710656 + to_u16 (v4Y c) * 4294967296
    + to_u16 (v4Z c) * 65536 + to_u16 (v4P c).
Proof.
  unfold V4.Hash; cbv zeta.
  pose proof (to_u16_range (v4X c)) as Hx. pose proof (to_u16_range (v4Y c)) as Hy.
  pose proof (to_u16_range (v4Z c)) as Hz. pose proof (to_u16_range (v4P c)) as Hp.
  revert Hx Hy Hz Hp.
  generalize (to_u16 (v4X c)) (to_u16 (v4Y c)) (to_u16 (v4Z c)) (to_u16 (v4P c)).
  unfold is_u16. intros x y z p Hx Hy Hz Hp.
  assert (Ex : u64_shl x 48 = x * 2 ^ 48) by solve_arith.
  assert (Ey : u64_shl y 32 = y * 2 ^ 32) by solve_arith.
  assert (Ez : u64_shl z 16 = z * 2 ^ 16) by solve_arith.
  rewrite Ex, Ey, Ez.
  rewrite (lxor_disjoint_lanes x (y * 2 ^ 32) 48) by lia.
  replace (x * 2 ^ 48 + y * 2 ^ 32) with ((x * 2 ^ 16 + y) * 2 ^ 32) by lia.
  rewrite (lxor_disjoint_lanes _ (z * 2 ^ 16) 32) by lia.
  replace ((x * 2 ^ 16 + y) * 2 ^ 32 + z * 2 ^ 16)
    with (((x * 2 ^ 16 + y) * 2 ^ 16 + z) * 2 ^ 16) by lia.
  rewrite (lxor_disjoint_lanes _ p 16) by lia.
  lia.
Qed.

Lemma Hash_inj (a b : v4s16) :
  v4s16_ok a -> v4s16_ok b -> V4.Hash a = V4.Hash b -> a = b.
Proof.
  destruct a as [x1 y1 z1 p1], b as [x2 y2 z2 p2].
  intros (Hx1 & Hy1 & Hz1 & Hp1) (Hx2 & Hy2 & Hz2 & Hp2) E; simpl in *.
  rewrite !Hash_sum in E; simpl in E.
  assert (to_u16 x1 = to_u16 x2 /\ to_u16 y1 = to_u16 y2
          /\ to_u16 z1 = to_u16 z2 /\ to_u16 p1 = to_u16 p2) as (Ex & Ey & Ez & Ep).
  { pose proof (to_u16_range x1). pose proof (to_u16_range x2).
    pose proof (to_u16_range y1). pose proof (to_u16_range y2).
    pose proof (to_u16_range z1). pose proof (to_u16_range z2).
    pose proof (to_u16_range p1). pose proof (to_u16_range p2).
    unfold is_u16 in *. lia. }
  f_equal; apply to_u16_inj; assumption.
Qed.

(** C4, as the code has it. The hash is a 64-bit word of four lanes
    that do not overlap, the unsigned pattern of X in bits 48-63, of Y
    in bits 32-47, of Z in bits 16-31 and of the phase in bits 0-15: the
    order of the specification, reversed. *)
Theorem Hash_lanes (c : v4s16) :
  is_u64 (V4.Hash c)
  /\ Z.land (Z.shiftr (V4.Hash c) 48) 0xFFFF = to_u16 (v4X c)
  /\ Z.land (Z.shiftr (V4.Hash c) 32) 0xFFFF = to_u16 (v4Y c)
  /\ Z.land (Z.shiftr (V4.Hash c) 16) 0xFFFF = to_u16 (v4Z c)
  /\ Z.land (V4.Hash c) 0xFFFF = to_u16 (v4P c)
  /\ V4.Hash c = Hash_spec (mk_v4s16 (v4P c) (v4Z c) (v4Y c) (v4X c)).
Proof.
  pose proof (to_u16_range (v4X c)) as Hx. pose proof (to_u16_range (v4Y c)) as Hy.
  pose proof (to_u16_range (v4Z c)) as Hz. pose proof (to_u16_range (v4P c)) as Hp.
  split; [ | split; [ | split; [ | split; [ | split; [ | reflexivity ] ] ] ] ];
    rewrite Hash_sum; revert Hx Hy Hz Hp;
    generalize (to_u16 (v4X c)) (to_u16 (v4Y c)) (to_u16 (v4Z c)) (to_u16 (v4P c));
    intros x y z p Hx Hy Hz Hp; solve_arith.
Qed.

(** C4, as stated, fails: the hash of (1, 0, 0, 0) has its one bit in
    lane 48-63, not in lane 0-15. *)
Lemma Hash_lane_order_counterexample :
  V4.Hash (mk_v4s16 1 0 0 0) = 2 ^ 48
  /\ Hash_spec (mk_v4s16 1 0 0 0) = 1
  /\ V4.Hash (mk_v4s16 1 0 0 0) <> Hash_spec (mk_v4s16 1 0 0 0).
Proof. repeat split. discriminate. Qed.

(** C6. Two coordinates that differ in exactly one of X, Y, Z and the
    phase have different hashes. *)
Theorem Hash_single_component_change (a b : v4s16) :
  v4s16_ok a -> v4s16_ok b -> differ_in_one a b -> V4.Hash a <> V4.Hash b.
Proof.
  intros Ha Hb Hd E. apply (Hash_inj a b Ha Hb) in E. subst b.
  destruct Hd as [(H & _) | [(_ & H & _) | [(_ & _ & H & _) | (_ & _ & _ & H)]]];
    apply H; reflexivity.
Qed.

Lemma Hash_single_component_change_witness :
  v4s16_ok (mk_v4s16 1 (-2) 3 4)
  /\ v4s16_ok (mk_v4s16 1 (-2) 3 (-4))
  /\ differ_in_one (mk_v4s16 1 (-2) 3 4) (mk_v4s16 1 (-2) 3 (-4))
  /\ V4.Hash (mk_v4s16 1 (-2) 3 4) <> V4.Hash (mk_v4s16 1 (-2) 3 (-4)).
Proof.
  assert (Ha : v4s16_ok (mk_v4s16 1 (-2) 3 4))
    by (unfold v4s16_ok, is_s16; simpl; lia).
  assert (Hb : v4s16_ok (mk_v4s16 1 (-2) 3 (-4)))
    by (unfold v4s16_ok, is_s16; simpl; lia).
  assert (Hd : differ_in_one (mk_v4s16 1 (-2) 3 4) (mk_v4s16 1 (-2) 3 (-4))).
  { right; right; right. simpl. repeat split; lia. }
  split; [ exact Ha | ].
  split; [ exact Hb | ].
  split; [ exact Hd | ].
  exact (Hash_single_component_change _ _ Ha Hb Hd).
Defined.

(** ** The phase seed *)

(** For an identifier already cast to [u16]: the 64-bit sum wraps, and
    the generator's seed is the exact sum narrowed once. *)
Lemma phase_modified_seed_u16 (base_seed p : Z) :
  is_u64 base_seed -> is_u16 p ->
  Seed.phase_modified_seed base_seed p = derive_spec base_seed p
  /\ Seed.phase_modified_seed base_seed p
     = (if base_seed + p <? 2 ^ 64 then base_seed + p else base_seed + p - 2 ^ 64)
  /\ is_u64 (Seed.phase_modified_seed base_seed p)
  /\ Seed.mapgen_seed base_seed p = to_s32 (base_seed + p).
Proof.
  intros Hs Hp. unfold Seed.mapgen_seed, Seed.phase_modified_seed, derive_spec.
  split; [ reflexivity | ].
  split.
  { destruct (Z.ltb_spec (base_seed + p) (2 ^ 64)) as [Hlt | Hge];
      revert Hlt || revert Hge; solve_arith. }
  split; solve_arith.
Qed.

Lemma phase_id_cases (P : Z) :
  is_s16 P -> Seed.phase_id P = if P <? 0 then P + 65536 else P.
Proof.
  intros HP. unfold Seed.phase_id. destruct (Z.ltb_spec P 0); solve_arith.
Qed.

(** C2, as the code has it. The phase, an [s16], is first cast to its
    [u16] identifier: itself when it is not negative, [65536] more when
    it is. The seed is the sum of the base seed and that identifier
    modulo [2^64], a 64-bit value; the generator's [s32] seed is that
    sum narrowed once, which is the exact sum narrowed; and
    [0xFFFFFFFFFFFFFFFF] with phase 1 wraps to 0. For a phase that is
    not negative this is the stated sum, for a negative one it is
    not. *)
Theorem seed_derivation_of_phase (base_seed P : Z) :
  is_u64 base_seed -> is_s16 P ->
  Seed.phase_modified_seed base_seed (Seed.phase_id P)
  = derive_spec base_seed (if P <? 0 then P + 65536 else P)
  /\ (0 <= P ->
      Seed.phase_modified_seed base_seed (Seed.phase_id P) = derive_spec base_seed P)
  /\ (P < 0 ->
      Seed.phase_modified_seed base_seed (Seed.phase_id P) <> derive_spec base_seed P)
  /\ is_u64 (Seed.phase_modified_seed base_seed (Seed.phase_id P))
  /\ Seed.mapgen_seed base_seed (Seed.phase_id P)
     = to_s32 (base_seed + (if P <? 0 then P + 65536 else P))
  /\ Seed.phase_modified_seed 0xFFFFFFFFFFFFFFFF (Seed.phase_id 1) = 0.
Proof.
  intros Hs HP.
  assert (Hid : is_u16 (Seed.phase_id P)) by apply to_u16_range.
  destruct (phase_modified_seed_u16 base_seed (Seed.phase_id P) Hs Hid)
    as (Hsum & _ & Hrange & Hnarrow).
  rewrite Hsum, Hnarrow, (phase_id_cases P HP).
  split; [ reflexivity | ].
  split.
  { intros H0. destruct (Z.ltb_spec P 0); [ lia | reflexivity ]. }
  split.
  { intros Hneg. destruct (Z.ltb_spec P 0); [ | lia ].
    unfold derive_spec, is_u64, is_s16 in *.
    change (2 ^ 64) with 18446744073709551616.
    Z.div_mod_to_equations. lia. }
  split; [ rewrite <- (phase_id_cases P HP), <- Hsum; exact Hrange | ].
  split; reflexivity.
Qed.

Lemma seed_derivation_of_phase_witness :
  is_u64 0xFFFFFFFFFFFFFFFF /\ is_s16 1 /\ is_s16 (-1)
  /\ Seed.phase_modified_seed 0xFFFFFFFFFFFFFFFF (Seed.phase_id 1) = 0
  /\ Seed.phase_modified_seed 0xFFFFFFFFFFFFFFFF (Seed.phase_id (-1)) = 65534
  /\ Seed.phase_modified_seed 0xFFFFFFFFFFFFFFFF (Seed.phase_id (-1))
     <> derive_spec 0xFFFFFFFFFFFFFFFF (-1).
Proof.
  assert (Hs : is_u64 0xFFFFFFFFFFFFFFFF) by (unfold is_u64; lia).
  assert (H1 : is_s16 1) by (unfold is_s16; lia).
  assert (Hm : is_s16 (-1)) by (unfold is_s16; lia).
  assert (Hneg : -1 < 0) by lia.
  split; [ exact Hs | ].
  split; [ exact H1 | ].
  split; [ exact Hm | ].
  split; [ exact (proj1 (seed_derivation_of_phase _ _ Hs H1)) | ].
  split; [ exact (proj1 (seed_derivation_of_phase _ _ Hs Hm)) | ].
  exact (proj1 (proj2 (proj2 (seed_derivation_of_phase _ _ Hs Hm))) Hneg).
Defined.

(** C2, as stated, fails for a negative phase: with base seed 0 and
    phase -1 the code adds the identifier 65535, where the stated sum
    is [2^64 - 1]. *)
Lemma seed_negative_phase_counterexample :
  Seed.phase_id (-1) = 65535
  /\ Seed.phase_modified_seed 0 (Seed.phase_id (-1)) = 65535
  /\ derive_spec 0 (-1) = 18446744073709551615
  /\ Seed.phase_modified_seed 0 (Seed.phase_id (-1)) <> derive_spec 0 (-1).
Proof. repeat split. discriminate. Qed.

(** C7. Phase 0 leaves every 64-bit seed as it is, and two distinct
    16-bit phase identifiers, or the identifiers of two distinct [s16]
    phases, give distinct seeds from the same base seed. *)
Theorem seed_phase_identity_and_distinct :
  (forall seed, is_u64 seed ->
     Seed.phase_modified_seed seed 0 = seed
     /\ Seed.phase_modified_seed seed (Seed.phase_id 0) = seed)
  /\ (forall seed p1 p2, is_u64 seed -> is_u16 p1 -> is_u16 p2 -> p1 <> p2 ->
        Seed.phase_modified_seed seed p1 <> Seed.phase_modified_seed seed p2)
  /\ (forall seed P1 P2, is_u64 seed -> is_s16 P1 -> is_s16 P2 -> P1 <> P2 ->
        Seed.phase_modified_seed seed (Seed.phase_id P1)
        <> Seed.phase_modified_seed seed (Seed.phase_id P2)).
Proof.
  unfold Seed.phase_modified_seed, Seed.phase_id.
  split; [ | split ].
  - intros seed Hs. change (to_u16 0) with 0. split; solve_arith.
  - intros seed p1 p2 Hs H1 H2 Hne. solve_arith.
  - intros seed P1 P2 Hs H1 H2 Hne. solve_arith.
Qed.

Lemma seed_phase_identity_and_distinct_witness :
  is_u64 0xFFFFFFFFFFFFFFFF
  /\ Seed.phase_modified_seed 0xFFFFFFFFFFFFFFFF 0 = 0xFFFFFFFFFFFFFFFF
  /\ is_u16 1 /\ is_u16 65535
  /\ Seed.phase_modified_seed 0xFFFFFFFFFFFFFFFF 1
     <> Seed.phase_modified_seed 0xFFFFFFFFFFFFFFFF 65535
  /\ is_s16 (-1) /\ is_s16 1
  /\ Seed.phase_modified_seed 0xFFFFFFFFFFFFFFFF (Seed.phase_id (-1))
     <> Seed.phase_modified_seed 0xFFFFFFFFFFFFFFFF (Seed.phase_id 1).
Proof.
  assert (Hs : is_u64 0xFFFFFFFFFFFFFFFF) by (unfold is_u64; lia).
  assert (H1 : is_u16 1) by (unfold is_u16; lia).
  assert (H2 : is_u16 65535) by (unfold is_u16; lia).
  assert (H3 : is_s16 (-1)) by (unfold is_s16; lia).
  assert (H4 : is_s16 1) by (unfold is_s16; lia).
  split; [ exact Hs | ].
  split; [ exact (proj1 (proj1 seed_phase_identity_and_distinct _ Hs)) | ].
  split; [ exact H1 | ].
  split; [ exact H2 | ].
  split.
  { apply (proj1 (proj2 seed_phase_identity_and_distinct) _ _ _ Hs H1 H2). lia. }
  split; [ exact H3 | ].
  split; [ exact H4 | ].
  apply (proj2 (proj2 seed_phase_identity_and_distinct) _ _ _ Hs H3 H4). lia.
Defined.

(** The fixed and the earlier derivation leave the same [s32] seed with
    the generator when the earlier [s32] sum wraps: what the fix changes
    is the 64-bit intermediate value. *)
Remark earlier_derivation_same_mapgen_seed (seed p : Z) :
  Seed.phase_modified_seed_s32 seed p = Seed.mapgen_seed seed p.
Proof.
  unfold Seed.phase_modified_seed_s32, Seed.mapgen_seed, Seed.phase_modified_seed.
  solve_arith.
Qed.

(** Narrowing loses the upper half: two base seeds [2^32] apart leave
    the same [s32] seed with the generator, in every phase. *)
Remark mapgen_seed_collision (p : Z) :
  Seed.mapgen_seed 0 p = Seed.mapgen_seed 4294967296 p.
Proof. unfold Seed.mapgen_seed, Seed.phase_modified_seed. solve_arith. Qed.

(** ** Phase 0 as the three-axis surface *)

(** C8. A [v4s16] built from a [v3s16], or from three integers, with no
    phase given has phase 0 and the same X, Y and Z; it is the value the
    constructors build with the phase given as 0, equal to it under
    [operator==] and under the hash, and [toV3s16] gives the three-axis
    coordinate back. *)
Theorem phase0_projection (pos : v3s16) (x y z : Z) :
  V4.of_v3s16 pos None = mk_v4s16 (v3X pos) (v3Y pos) (v3Z pos) 0
  /\ V4.of_s16 x y z None = mk_v4s16 x y z 0
  /\ V4.of_v3s16 pos None = V4.of_v3s16 pos (Some 0)
  /\ V4.of_s16 x y z None = V4.of_s16 x y z (Some 0)
  /\ V4.of_v3s16 pos None = V4.of_s16 (v3X pos) (v3Y pos) (v3Z pos) (Some 0)
  /\ V4.eqb (V4.of_v3s16 pos None) (V4.of_v3s16 pos (Some 0)) = true
  /\ V4.neqb (V4.of_s16 x y z None) (V4.of_s16 x y z (Some 0)) = false
  /\ V4.Hash (V4.of_v3s16 pos None) = V4.Hash (V4.of_v3s16 pos (Some 0))
  /\ V4.toV3s16 (V4.of_v3s16 pos None) = pos
  /\ V4.toV3s16 (V4.of_s16 x y z None) = mk_v3s16 x y z.
Proof.
  destruct pos as [px py pz].
  unfold V4.neqb, V4.eqb, V4.of_v3s16, V4.of_s16; simpl.
  rewrite !Z.eqb_refl.
  repeat split.
Qed.

(** ** Removal from the block table *)

Section StoreInvariant.

Import Store.

Lemma precedes_snoc_other (tr : list event) (e : event) :
  (forall a, e <> EvDelete a) ->
  orphan_precedes_delete tr -> orphan_precedes_delete (tr ++ [e]).
Proof.
  intros Hne Htr i a Hi.
  apply lookup_snoc_Some in Hi as [[Hlt Hi] | [_ He]].
  - destruct (Htr i a Hi) as (j & Hj & Hoj).
    exists j. split; [exact Hj |]. apply lookup_app_l_Some, Hoj.
  - exfalso. exact (Hne a He).
Qed.

Lemma precedes_snoc_delete (tr : list event) (a : addr) (j : nat) :
  tr !! j = Some (EvOrphan a) ->
  orphan_precedes_delete tr -> orphan_precedes_delete (tr ++ [EvDelete a]).
Proof.
  intros Hj Htr i a' Hi.
  apply lookup_snoc_Some in Hi as [[Hlt Hi] | [Hlen He]].
  - destruct (Htr i a' Hi) as (k & Hk & Hok).
    exists k. split; [exact Hk |]. apply lookup_app_l_Some, Hok.
  - injection He as <-. exists j. split.
    + apply lookup_lt_Some in Hj. lia.
    + apply lookup_app_l_Some, Hj.
Qed.

Lemma step_inv (c c' : config) : step c = Some c' -> inv c -> inv c'.
Proof.
  destruct c as [pos p m]. unfold step; simpl.
  intros Hstep (Hheap & Htr & Hpc); simpl in *.
  destruct p as [ | [[block | ] | ] | block | block | | | ]; simpl in *;
    try (injection Hstep as <-; repeat split; simpl; assumption);
    try discriminate.
  - (* makeOrphan *)
    destruct (live (heap m) block) eqn:Hlive; injection Hstep as <-;
      [ | repeat split; simpl; assumption ].
    repeat split; simpl.
    + intros a b Hab Hrel.
      apply lookup_alter_Some in Hab as [(-> & b0 & _ & ->) | (_ & Hab)].
      * reflexivity.
      * exact (Hheap a b Hab Hrel).
    + apply precedes_snoc_other; [ discriminate | exact Htr ].
    + intros b Hb.
      apply lookup_alter_Some in Hb as [(_ & b0 & _ & ->) | (Hne & _)];
        [ reflexivity | congruence ].
    + exists (length (trace m)). apply lookup_snoc_Some. right. auto.
  - (* delete *)
    destruct Hpc as (Horph & j & Hj). injection Hstep as <-.
    repeat split; simpl.
    + intros a b Hab Hrel.
      apply lookup_alter_Some in Hab as [(-> & b0 & Hb0 & ->) | (_ & Hab)].
      * simpl. exact (Horph b0 Hb0).
      * exact (Hheap a b Hab Hrel).
    + exact (precedes_snoc_delete _ _ _ Hj Htr).
  - (* erase *)
    injection Hstep as <-. repeat split; simpl.
    + exact Hheap.
    + apply precedes_snoc_other; [ discriminate | exact Htr ].
Qed.

Lemma sys_step_inv (c c' : config) : sys_step c c' -> inv c -> inv c'.
Proof.
  intros [c1 c2 Hstep | pos pos' m] Hinv.
  - exact (step_inv _ _ Hstep Hinv).
  - destruct Hinv as (Hheap & Htr & _). repeat split; assumption.
Qed.

Lemma reachable_inv (c c' : config) : rtc sys_step c c' -> inv c -> inv c'.
Proof.
  intros Hreach Hinv. revert c' Hreach.
  apply rtc_ind_r; [ exact Hinv | ].
  intros y z _ Hyz IH. exact (sys_step_inv _ _ Hyz IH).
Qed.

Lemma run_reachable (n : nat) (c : config) : rtc sys_step c (run n c).
Proof.
  revert c. induction n as [ | n IH]; intros c; simpl.
  - apply rtc_refl.
  - destruct (step c) as [c' | ] eqn:Hstep.
    + eapply rtc_l; [ apply sys_inner, Hstep | apply IH ].
    + apply rtc_refl.
Qed.

Lemma deleteBlock_absent (m : Map) (pos : v4s16) :
  m_blocks m !! pos = None -> deleteBlock m pos = mk_config pos Done m.
Proof.
  intros Habs. unfold deleteBlock; simpl.
  rewrite Habs. reflexivity.
Qed.

Lemma deleteBlock_null (m : Map) (pos : v4s16) :
  m_blocks m !! pos = Some None ->
  deleteBlock m pos =
    mk_config pos Done
      (mk_Map (delete pos (m_blocks m)) (heap m) (trace m ++ [EvErase pos])).
Proof.
  intros Hpos. unfold deleteBlock; simpl.
  rewrite Hpos; simpl. reflexivity.
Qed.

Lemma deleteBlock_live (m : Map) (pos : v4s16) (block : addr) :
  m_blocks m !! pos = Some (Some block) ->
  live (heap m) block = true ->
  deleteBlock m pos =
    mk_config pos Done
      (mk_Map (delete pos (m_blocks m))
         (alter destroy block (alter makeOrphan block (heap m)))
         (trace m ++ [EvOrphan block; EvDelete block; EvErase pos])).
Proof.
  intros Hpos Hlive. unfold deleteBlock, run, step.
  cbn [c_pos c_pc c_map m_blocks heap trace]. rewrite Hpos.
  cbn [c_pos c_pc c_map m_blocks heap trace]. rewrite Hlive.
  cbn [c_pos c_pc c_map m_blocks heap trace].
  rewrite <- !app_assoc. reflexivity.
Qed.

(** After the removal of a live block its coordinate is absent and the
    block is both orphaned and released. *)
Lemma deleteBlock_live_after (m : Map) (pos : v4s16) (block : addr) (b : MapBlock) :
  m_blocks m !! pos = Some (Some block) ->
  heap m !! block = Some b -> released b = false ->
  get (c_map (deleteBlock m pos)) pos = None
  /\ heap (c_map (deleteBlock m pos)) !! block = Some (mk_MapBlock true true).
Proof.
  intros Hpos Hb Hrel.
  assert (Hlive : live (heap m) block = true)
    by (unfold live; rewrite Hb, Hrel; reflexivity).
  rewrite (deleteBlock_live m pos block Hpos Hlive).
  unfold get; simpl. rewrite lookup_delete_eq, !lookup_alter_eq, Hb.
  split; reflexivity.
Qed.

End StoreInvariant.

(** C3. From a table in which no released block is unorphaned and no
    [delete] of the past came before its [makeOrphan], every state that
    removals reach, between any two of their steps, is such a state
    again: a block's orphan flag is set strictly before [delete] runs on
    it. *)
Theorem orphan_before_destroy (m : Store.Map) (pos : v4s16) (c : Store.config) :
  Store.orphaned_if_released (Store.heap m) ->
  Store.orphan_precedes_delete (Store.trace m) ->
  rtc Store.sys_step (Store.mk_config pos Store.AtFind m) c ->
  Store.orphaned_if_released (Store.heap (Store.c_map c))
  /\ Store.orphan_precedes_delete (Store.trace (Store.c_map c)).
Proof.
  intros Hheap Htr Hreach.
  assert (Hinv : Store.inv (Store.mk_config pos Store.AtFind m))
    by (repeat split; assumption).
  destruct (reachable_inv _ _ Hreach Hinv) as (H1 & H2 & _).
  split; assumption.
Qed.

Lemma orphan_before_destroy_witness :
  Store.orphaned_if_released (Store.heap Store.one_block)
  /\ Store.orphan_precedes_delete (Store.trace Store.one_block)
  /\ Store.orphaned_if_released
       (Store.heap (Store.c_map (Store.deleteBlock Store.one_block (mk_v4s16 10 20 30 0))))
  /\ Store.orphan_precedes_delete
       (Store.trace (Store.c_map (Store.deleteBlock Store.one_block (mk_v4s16 10 20 30 0)))).
Proof.
  assert (H1 : Store.orphaned_if_released (Store.heap Store.one_block)).
  { unfold Store.one_block; cbn [Store.heap]. intros a b Hab.
    apply lookup_singleton_Some in Hab as [_ <-]. discriminate. }
  assert (H2 : Store.orphan_precedes_delete (Store.trace Store.one_block)).
  { intros i a Hi. destruct i; discriminate Hi. }
  split; [ exact H1 | ].
  split; [ exact H2 | ].
  exact (orphan_before_destroy Store.one_block (mk_v4s16 10 20 30 0) _ H1 H2
           (run_reachable 5 _)).
Defined.

(** C9. For a coordinate that the table does not hold, [get] answers
    absent, and the removal returns at once, with no fault, leaving the
    table, the blocks and the trace as they were. *)
Theorem absent_get_and_remove (m : Store.Map) (pos : v4s16) :
  Store.m_blocks m !! pos = None ->
  Store.get m pos = None
  /\ Store.deleteBlock m pos = Store.mk_config pos Store.Done m.
Proof.
  intros Habs. split.
  - unfold Store.get. rewrite Habs. reflexivity.
  - apply deleteBlock_absent, Habs.
Qed.

Lemma absent_get_and_remove_witness :
  Store.m_blocks Store.one_block !! mk_v4s16 10 20 30 1 = None
  /\ Store.get Store.one_block (mk_v4s16 10 20 30 1) = None
  /\ Store.deleteBlock Store.one_block (mk_v4s16 10 20 30 1)
     = Store.mk_config (mk_v4s16 10 20 30 1) Store.Done Store.one_block.
Proof.
  assert (H : Store.m_blocks Store.one_block !! mk_v4s16 10 20 30 1 = None)
    by (vm_compute; reflexivity).
  split; [ exact H | ].
  exact (absent_get_and_remove Store.one_block (mk_v4s16 10 20 30 1) H).
Defined.

(** * Further properties of the code *)

(** ** Equality and hash of [v4s16] *)

Lemma v4_eqb_eq (a b : v4s16) : V4.eqb a b = true <-> a = b.
Proof.
  destruct a as [x1 y1 z1 p1], b as [x2 y2 z2 p2]. unfold V4.eqb; simpl.
  rewrite !andb_true_iff, !Z.eqb_eq. split.
  - intros [[[-> ->] ->] ->]. reflexivity.
  - intros E. injection E as -> -> -> ->. auto.
Qed.

(** X1. [operator==] holds exactly for coordinates with the same four
    fields, and [operator!=] exactly for the others. *)
Theorem eqb_decides_equality (a b : v4s16) :
  (V4.eqb a b = true <-> a = b) /\ (V4.neqb a b = true <-> a <> b).
Proof.
  split; [ apply v4_eqb_eq | ].
  unfold V4.neqb. rewrite negb_true_iff, <- v4_eqb_eq.
  destruct (V4.eqb a b); split; congruence.
Qed.

(** X2. Keys equal under [operator==] have the same hash, and on
    coordinates whose fields are [s16] values the converse holds: the
    hash never makes two distinct coordinates collide. *)
Theorem Hash_agrees_with_equality (a b : v4s16) :
  (V4.eqb a b = true -> V4.Hash a = V4.Hash b)
  /\ (v4s16_ok a -> v4s16_ok b -> V4.Hash a = V4.Hash b -> V4.eqb a b = true).
Proof.
  split.
  - intros E. apply v4_eqb_eq in E. subst b. reflexivity.
  - intros Ha Hb E. apply v4_eqb_eq. exact (Hash_inj a b Ha Hb E).
Qed.

Lemma Hash_agrees_with_equality_witness :
  V4.eqb (mk_v4s16 (-1) 2 (-3) 4) (mk_v4s16 (-1) 2 (-3) 4) = true
  /\ V4.Hash (mk_v4s16 (-1) 2 (-3) 4) = V4.Hash (mk_v4s16 (-1) 2 (-3) 4)
  /\ v4s16_ok (mk_v4s16 (-1) 2 (-3) 4)
  /\ V4.eqb (mk_v4s16 (-1) 2 (-3) 4) (mk_v4s16 (-1) 2 (-3) 4) = true.
Proof.
  assert (E : V4.eqb (mk_v4s16 (-1) 2 (-3) 4) (mk_v4s16 (-1) 2 (-3) 4) = true)
    by reflexivity.
  assert (H : v4s16_ok (mk_v4s16 (-1) 2 (-3) 4))
    by (unfold v4s16_ok, is_s16; simpl; lia).
  split; [ exact E | ].
  split; [ exact (proj1 (Hash_agrees_with_equality _ _) E) | ].
  split; [ exact H | ].
  exact (proj2 (Hash_agrees_with_equality _ _) H H eq_refl).
Defined.

(** X3. [toV3s16] drops the phase and nothing else: it undoes the
    constructor from a [v3s16] whatever the phase, a coordinate is
    rebuilt from its [toV3s16] and its phase, and two coordinates with
    the same [toV3s16] and the same phase are equal. *)
Theorem toV3s16_drops_phase_only (pos : v3s16) (p : option Z) (a b : v4s16) :
  V4.toV3s16 (V4.of_v3s16 pos p) = pos
  /\ V4.of_v3s16 (V4.toV3s16 a) (Some (v4P a)) = a
  /\ (V4.toV3s16 a = V4.toV3s16 b /\ v4P a = v4P b <-> a = b).
Proof.
  destruct pos as [px py pz], a as [x1 y1 z1 p1], b as [x2 y2 z2 p2].
  unfold V4.toV3s16, V4.of_v3s16; simpl.
  split; [ reflexivity | ]. split; [ reflexivity | ].
  split.
  - intros [E ->]. injection E as -> -> ->. reflexivity.
  - intros E. injection E as -> -> -> ->. auto.
Qed.

(** ** Keys of the phase-aware codec *)

(** X4. The phase-aware encoding gives distinct coordinates distinct
    keys. *)
Theorem codec4_injective (a b : v4s16) :
  v4s16_ok a -> v4s16_ok b ->
  Codec4.getBlockAsInteger a = Codec4.getBlockAsInteger b -> a = b.
Proof.
  intros Ha Hb E.
  rewrite <- (codec4_decode_encode a Ha), <- (codec4_decode_encode b Hb), E.
  reflexivity.
Qed.

Lemma codec4_injective_witness :
  v4s16_ok (mk_v4s16 7 (-8) 9 (-10))
  /\ mk_v4s16 7 (-8) 9 (-10) = mk_v4s16 7 (-8) 9 (-10).
Proof.
  assert (H : v4s16_ok (mk_v4s16 7 (-8) 9 (-10)))
    by (unfold v4s16_ok, is_s16; simpl; lia).
  split; [ exact H | ].
  exact (codec4_injective _ _ H H eq_refl).
Defined.

(** X5. The phase sits in the top lane of the key: the key is negative
    exactly when the phase is, and a phase-0 key lies in [0, 2^48). *)
Theorem codec4_key_sign (c : v4s16) :
  v4s16_ok c ->
  (Codec4.getBlockAsInteger c < 0 <-> v4P c < 0)
  /\ (v4P c = 0 -> 0 <= Codec4.getBlockAsInteger c < 2 ^ 48).
Proof.
  destruct c as [x y z p]. intros (Hx & Hy & Hz & Hp); simpl in *.
  unfold Codec4.getBlockAsInteger; simpl.
  split; [ split; intros H; revert H | intros -> ]; solve_arith.
Qed.

Lemma codec4_key_sign_witness :
  v4s16_ok (mk_v4s16 (-1) (-1) (-1) 0)
  /\ 0 <= Codec4.getBlockAsInteger (mk_v4s16 (-1) (-1) (-1) 0) < 2 ^ 48.
Proof.
  assert (H : v4s16_ok (mk_v4s16 (-1) (-1) (-1) 0))
    by (unfold v4s16_ok, is_s16; simpl; lia).
  split; [ exact H | ].
  exact (proj2 (codec4_key_sign _ H) eq_refl).
Defined.

(** ** Keys of the legacy codec *)

Lemma codec3_decode_signed12 (k : Z) : signed12 (Codec3.getIntegerAsBlock k).
Proof.
  unfold Codec3.getIntegerAsBlock, signed12; simpl. repeat split; solve_arith.
Qed.

Lemma codec3_encode_decode (k : Z) :
  legacy_key k -> Codec3.getBlockAsInteger (Codec3.getIntegerAsBlock k) = k.
Proof.
  intros Hk.
  rewrite (codec3_encode_sum _ (signed12_ok _ (codec3_decode_signed12 k))).
  unfold legacy_key in Hk. unfold Codec3.getIntegerAsBlock; simpl. solve_arith.
Qed.

Lemma codec3_encode_legacy_key (c : v3s16) :
  signed12 c -> legacy_key (Codec3.getBlockAsInteger c).
Proof.
  intros Hc. rewrite (codec3_encode_sum c (signed12_ok c Hc)).
  destruct Hc as (Hx & Hy & Hz). unfold legacy_key. lia.
Qed.

(** X6. The legacy codec is a bijection between the coordinates whose
    components are signed 12-bit values and the keys from
    [-0x800800800] to [0x7FF7FF7FF]: such a coordinate has such a key and
    decodes back from it, and such a key decodes to such a coordinate
    and encodes back from it. *)
Theorem codec3_bijection :
  (forall c, signed12 c ->
     legacy_key (Codec3.getBlockAsInteger c)
     /\ Codec3.getIntegerAsBlock (Codec3.getBlockAsInteger c) = c)
  /\ (forall k, legacy_key k ->
        signed12 (Codec3.getIntegerAsBlock k)
        /\ Codec3.getBlockAsInteger (Codec3.getIntegerAsBlock k) = k).
Proof.
  split.
  - intros c Hc. split; [ apply codec3_encode_legacy_key, Hc | apply codec3_decode_encode, Hc ].
  - intros k Hk. split; [ apply codec3_decode_signed12 | apply codec3_encode_decode, Hk ].
Qed.

Lemma codec3_bijection_witness :
  signed12 (mk_v3s16 (-2048) 2047 (-2048))
  /\ Codec3.getIntegerAsBlock (Codec3.getBlockAsInteger (mk_v3s16 (-2048) 2047 (-2048)))
     = mk_v3s16 (-2048) 2047 (-2048)
  /\ legacy_key (-0x800800800)
  /\ Codec3.getBlockAsInteger (Codec3.getIntegerAsBlock (-0x800800800)) = -0x800800800.
Proof.
  assert (Hc : signed12 (mk_v3s16 (-2048) 2047 (-2048)))
    by (unfold signed12; simpl; lia).
  assert (Hk : legacy_key (-0x800800800)) by (unfold legacy_key; lia).
  split; [ exact Hc | ].
  split; [ exact (proj2 (proj1 codec3_bijection _ Hc)) | ].
  split; [ exact Hk | ].
  exact (proj2 (proj2 codec3_bijection _ Hk)).
Defined.

(** X7. The legacy decoder never returns a component outside
    [-2048, 2047], whatever the key, and it reads the key modulo [2^36]:
    two keys [2^36] apart decode alike. *)
Theorem codec3_decode_range_and_period (k : Z) :
  is_s64 (k + 0x800800800) -> is_s64 (k + 2 ^ 36 + 0x800800800) ->
  signed12 (Codec3.getIntegerAsBlock k)
  /\ Codec3.getIntegerAsBlock (k + 2 ^ 36) = Codec3.getIntegerAsBlock k.
Proof.
  intros H1 H2. split; [ apply codec3_decode_signed12 | ].
  change (2 ^ 36) with 68719476736 in *.
  unfold Codec3.getIntegerAsBlock; simpl. f_equal; solve_arith.
Qed.

Lemma codec3_decode_range_and_period_witness :
  is_s64 (5 + 0x800800800) /\ is_s64 (5 + 2 ^ 36 + 0x800800800)
  /\ Codec3.getIntegerAsBlock (5 + 2 ^ 36) = Codec3.getIntegerAsBlock 5.
Proof.
  assert (H1 : is_s64 (5 + 0x800800800)) by (unfold is_s64; lia).
  assert (H2 : is_s64 (5 + 2 ^ 36 + 0x800800800)) by (unfold is_s64; lia).
  split; [ exact H1 | ].
  split; [ exact H2 | ].
  exact (proj2 (codec3_decode_range_and_period 5 H1 H2)).
Defined.

(** X8. Past twelve bits the legacy encoding carries into the next
    axis: [4096] more on X is one more on Y, and [4096] more on Y is one
    more on Z, so over all of [s16] it gives distinct coordinates the
    same key. *)
Theorem codec3_carries_between_axes (x y z : Z) :
  is_s16 x -> is_s16 (x + 4096) -> is_s16 y -> is_s16 (y + 1) ->
  is_s16 (y + 4096) -> is_s16 z -> is_s16 (z + 1) ->
  Codec3.getBlockAsInteger (mk_v3s16 (x + 4096) y z)
  = Codec3.getBlockAsInteger (mk_v3s16 x (y + 1) z)
  /\ Codec3.getBlockAsInteger (mk_v3s16 x (y + 4096) z)
     = Codec3.getBlockAsInteger (mk_v3s16 x y (z + 1)).
Proof.
  intros Hx Hx' Hy Hy1 Hy' Hz Hz1.
  rewrite !codec3_encode_sum by (unfold v3s16_ok; simpl; auto).
  simpl. split; lia.
Qed.

Lemma codec3_carries_between_axes_witness :
  is_s16 (-2048) /\ is_s16 (-2048 + 4096) /\ is_s16 0 /\ is_s16 (0 + 1)
  /\ is_s16 (0 + 4096) /\ is_s16 0 /\ is_s16 (0 + 1)
  /\ Codec3.getBlockAsInteger (mk_v3s16 (-2048 + 4096) 0 0)
     = Codec3.getBlockAsInteger (mk_v3s16 (-2048) (0 + 1) 0).
Proof.
  assert (H1 : is_s16 (-2048)) by (unfold is_s16; lia).
  assert (H2 : is_s16 (-2048 + 4096)) by (unfold is_s16; lia).
  assert (H3 : is_s16 0) by (unfold is_s16; lia).
  assert (H4 : is_s16 (0 + 1)) by (unfold is_s16; lia).
  assert (H5 : is_s16 (0 + 4096)) by (unfold is_s16; lia).
  repeat (split; [ assumption | ]).
  exact (proj1 (codec3_carries_between_axes (-2048) 0 0 H1 H2 H3 H4 H5 H3 H4)).
Defined.

Lemma codec4_encode_sum (c : v4s16) :
  Codec4.getBlockAsInteger c
  = to_s64 (to_u16 (v4P c) * 281474976710656 + to_u16 (v4Z c) * 4294967296
            + to_u16 (v4Y c) * 65536 + to_u16 (v4X c)).
Proof. unfold Codec4.getBlockAsInteger; cbv zeta. solve_arith. Qed.

Lemma to_u16_cases (a : Z) :
  is_s16 a -> to_u16 a = if a <? 0 then a + 65536 else a.
Proof. intros Ha. destruct (Z.ltb_spec a 0); solve_arith. Qed.

Lemma to_s64_small (v : Z) : 0 <= v < 9223372036854775808 -> to_s64 v = v.
Proof. intros Hv. solve_arith. Qed.

(** X9. A legacy key read by the phase-aware decoder gives the
    coordinate at phase 0 only on the non-negative X axis: for a
    coordinate in the legacy range the two agree exactly when Y and Z
    are 0 and X is not negative. *)
Theorem legacy_key_under_phase_decoder (c : v3s16) :
  legacy_range c ->
  (Codec4.getIntegerAsBlock (Codec3.getBlockAsInteger c) = V4.of_v3s16 c None
   <-> 0 <= v3X c /\ v3Y c = 0 /\ v3Z c = 0).
Proof.
  intros Hc.
  rewrite (codec3_encode_sum c (signed12_ok c (legacy_range_signed12 c Hc))).
  destruct c as [x y z]. destruct Hc as (Hx & Hy & Hz).
  cbn [v3X v3Y v3Z] in *. unfold V4.of_v3s16; cbn [v3X v3Y v3Z default].
  split.
  - intros E.
    assert (Hk : is_s64 (z * 16777216 + y * 4096 + x)) by (unfold is_s64; lia).
    pose proof (codec4_encode_decode _ Hk) as R. rewrite E in R. clear E Hk.
    rewrite codec4_encode_sum in R. cbn [v4X v4Y v4Z v4P] in R.
    rewrite (to_u16_cases x), (to_u16_cases y), (to_u16_cases z) in R
      by (unfold is_s16; lia).
    change (to_u16 0) with 0 in R.
    rewrite to_s64_small in R
      by (destruct (Z.ltb_spec x 0), (Z.ltb_spec y 0), (Z.ltb_spec z 0); lia).
    destruct (Z.ltb_spec x 0), (Z.ltb_spec y 0), (Z.ltb_spec z 0); lia.
  - intros (Hx0 & -> & ->).
    replace (0 * 16777216 + 0 * 4096 + x) with x by lia.
    unfold Codec4.getIntegerAsBlock. f_equal; solve_arith.
Qed.

Lemma legacy_key_under_phase_decoder_witness :
  legacy_range (mk_v3s16 5 0 0)
  /\ Codec4.getIntegerAsBlock (Codec3.getBlockAsInteger (mk_v3s16 5 0 0))
     = V4.of_v3s16 (mk_v3s16 5 0 0) None.
Proof.
  assert (H : legacy_range (mk_v3s16 5 0 0)) by (unfold legacy_range; simpl; lia).
  split; [ exact H | ].
  apply (proj2 (legacy_key_under_phase_decoder _ H)). simpl. lia.
Defined.

(** ** The seed the generator receives *)

(** X10. Narrowing keeps the phases apart: from one base seed, two
    distinct 16-bit phase identifiers leave distinct [s32] seeds with
    the generator, and a phase other than 0 never leaves the narrowed
    base seed itself. *)
Theorem mapgen_seed_distinct_phases (seed p1 p2 : Z) :
  is_u64 seed -> is_u16 p1 -> is_u16 p2 -> p1 <> p2 ->
  Seed.mapgen_seed seed p1 <> Seed.mapgen_seed seed p2
  /\ (p1 <> 0 -> Seed.mapgen_seed seed p1 <> to_s32 seed).
Proof.
  intros Hs H1 H2 Hne.
  unfold Seed.mapgen_seed, Seed.phase_modified_seed.
  split; [ | intros H0; revert H0 ]; solve_arith.
Qed.

Lemma mapgen_seed_distinct_phases_witness :
  is_u64 0xFFFFFFFFFFFFFFFF /\ is_u16 1 /\ is_u16 65535
  /\ Seed.mapgen_seed 0xFFFFFFFFFFFFFFFF 1 <> Seed.mapgen_seed 0xFFFFFFFFFFFFFFFF 65535.
Proof.
  assert (Hs : is_u64 0xFFFFFFFFFFFFFFFF) by (unfold is_u64; lia).
  assert (H1 : is_u16 1) by (unfold is_u16; lia).
  assert (H2 : is_u16 65535) by (unfold is_u16; lia).
  assert (Hne : 1 <> 65535) by lia.
  split; [ exact Hs | ].
  split; [ exact H1 | ].
  split; [ exact H2 | ].
  exact (proj1 (mapgen_seed_distinct_phases _ _ _ Hs H1 H2 Hne)).
Defined.

(** X11. The generator's seed depends on the low 32 bits of the base
    seed only: in any phase, two base seeds leave the same [s32] seed
    exactly when they agree modulo [2^32]. *)
Theorem mapgen_seed_low_half (s1 s2 p : Z) :
  Seed.mapgen_seed s1 p = Seed.mapgen_seed s2 p <-> s1 mod 2 ^ 32 = s2 mod 2 ^ 32.
Proof.
  unfold Seed.mapgen_seed, Seed.phase_modified_seed.
  split; intros H; revert H; solve_arith.
Qed.

(** X12. Where the earlier derivation's [s32] sum does not overflow, the
    earlier and the fixed derivation leave the same seed with the
    generator. *)
Theorem earlier_and_fixed_seed_agree (seed p : Z) :
  is_u64 seed -> is_u16 p -> to_s32 seed + p <= 2147483647 ->
  to_s32 seed + p = Seed.mapgen_seed seed p
  /\ Seed.phase_modified_seed_s32 seed p = Seed.mapgen_seed seed p.
Proof.
  intros Hs Hp Hno.
  unfold Seed.phase_modified_seed_s32, Seed.mapgen_seed, Seed.phase_modified_seed.
  split; revert Hno; solve_arith.
Qed.

Lemma earlier_and_fixed_seed_agree_witness :
  is_u64 0x1234567800000005 /\ is_u16 7
  /\ to_s32 0x1234567800000005 + 7 <= 2147483647
  /\ Seed.phase_modified_seed_s32 0x1234567800000005 7 = 12
  /\ Seed.mapgen_seed 0x1234567800000005 7 = 12.
Proof.
  assert (Hs : is_u64 0x1234567800000005) by (unfold is_u64; lia).
  assert (Hp : is_u16 7) by (unfold is_u16; lia).
  assert (Hno : to_s32 0x1234567800000005 + 7 <= 2147483647) by (vm_compute; discriminate).
  split; [ exact Hs | ].
  split; [ exact Hp | ].
  split; [ exact Hno | ].
  split; [ | reflexivity ].
  exact (proj2 (earlier_and_fixed_seed_agree _ _ Hs Hp Hno)).
Defined.

(** ** What a removal leaves behind *)

Section StoreRemoval.

Import Store.

Lemma deleteBlock_dangling (m : Map) (pos : v4s16) (block : addr) :
  m_blocks m !! pos = Some (Some block) ->
  live (heap m) block = false ->
  deleteBlock m pos = mk_config pos Fault m.
Proof.
  intros Hpos Hdead. unfold deleteBlock, run, step.
  cbn [c_pos c_pc c_map m_blocks heap trace]. rewrite Hpos.
  cbn [c_pos c_pc c_map m_blocks heap trace]. rewrite Hdead.
  reflexivity.
Qed.

(** The four ways a removal can go. *)
Lemma deleteBlock_cases (m : Map) (pos : v4s16) :
  (m_blocks m !! pos = None /\ deleteBlock m pos = mk_config pos Done m)
  \/ (m_blocks m !! pos = Some None
      /\ deleteBlock m pos =
           mk_config pos Done
             (mk_Map (delete pos (m_blocks m)) (heap m) (trace m ++ [EvErase pos])))
  \/ (exists block, m_blocks m !! pos = Some (Some block)
      /\ live (heap m) block = true
      /\ deleteBlock m pos =
           mk_config pos Done
             (mk_Map (delete pos (m_blocks m))
                (alter destroy block (alter makeOrphan block (heap m)))
                (trace m ++ [EvOrphan block; EvDelete block; EvErase pos])))
  \/ (exists block, m_blocks m !! pos = Some (Some block)
      /\ live (heap m) block = false
      /\ deleteBlock m pos = mk_config pos Fault m).
Proof.
  destruct (m_blocks m !! pos) as [[block | ] | ] eqn:Hpos.
  - destruct (live (heap m) block) eqn:Hlive.
    + right; right; left. exists block.
      split; [ reflexivity | split; [ exact Hlive | ] ].
      apply deleteBlock_live; assumption.
    + right; right; right. exists block.
      split; [ reflexivity | split; [ exact Hlive | ] ].
      apply (deleteBlock_dangling m pos block); assumption.
  - right; left. split; [ reflexivity | apply deleteBlock_null, Hpos ].
  - left. split; [ reflexivity | apply deleteBlock_absent, Hpos ].
Qed.

End StoreRemoval.

(** X13. Where the entry of the coordinate is absent, null or points
    to a live block, the removal returns and the coordinate is then
    absent from the table; and when it pointed to a live block, that
    block ends orphaned and released, the removal having added to the
    trace its [makeOrphan], its [delete] and the [erase], in this
    order and nothing else. *)
Theorem deleteBlock_removes (m : Store.Map) (pos : v4s16) :
  (forall block, Store.m_blocks m !! pos = Some (Some block) ->
     Store.live (Store.heap m) block = true) ->
  Store.c_pc (Store.deleteBlock m pos) = Store.Done
  /\ Store.m_blocks (Store.c_map (Store.deleteBlock m pos)) !! pos = None
  /\ Store.get (Store.c_map (Store.deleteBlock m pos)) pos = None
  /\ (forall block, Store.m_blocks m !! pos = Some (Some block) ->
        Store.heap (Store.c_map (Store.deleteBlock m pos)) !! block
        = Some (Store.mk_MapBlock true true)
        /\ Store.trace (Store.c_map (Store.deleteBlock m pos))
           = Store.trace m
               ++ [Store.EvOrphan block; Store.EvDelete block; Store.EvErase pos]).
Proof.
  intros Hvalid.
  destruct (deleteBlock_cases m pos)
    as [(Hpos & ->) | [(Hpos & ->) | [(b & Hpos & Hl & ->) | (b & Hpos & Hl & _)]]];
    unfold Store.get; simpl.
  - rewrite Hpos. split; [ reflexivity | ].
    split; [ reflexivity | ]. split; [ reflexivity | ].
    intros block Hb. discriminate Hb.
  - rewrite lookup_delete_eq. split; [ reflexivity | ].
    split; [ reflexivity | ]. split; [ reflexivity | ].
    intros block Hb. congruence.
  - rewrite lookup_delete_eq. split; [ reflexivity | ].
    split; [ reflexivity | ]. split; [ reflexivity | ].
    intros block Hb. assert (block = b) as -> by congruence.
    split; [ | reflexivity ].
    rewrite !lookup_alter_eq.
    unfold Store.live in Hl. destruct (Store.heap m !! b) as [blk | ]; [ | discriminate Hl ].
    reflexivity.
  - rewrite (Hvalid b Hpos) in Hl. discriminate Hl.
Qed.

Lemma deleteBlock_removes_witness :
  Store.live (Store.heap Store.one_block) 1%positive = true
  /\ Store.c_pc (Store.deleteBlock Store.one_block (mk_v4s16 10 20 30 0)) = Store.Done
  /\ Store.get (Store.c_map (Store.deleteBlock Store.one_block (mk_v4s16 10 20 30 0)))
       (mk_v4s16 10 20 30 0) = None
  /\ Store.heap (Store.c_map (Store.deleteBlock Store.one_block (mk_v4s16 10 20 30 0)))
       !! 1%positive
     = Some (Store.mk_MapBlock true true).
Proof.
  assert (Hpos : Store.m_blocks Store.one_block !! mk_v4s16 10 20 30 0
                 = Some (Some 1%positive)) by (vm_compute; reflexivity).
  assert (Hlive : Store.live (Store.heap Store.one_block) 1%positive = true)
    by (vm_compute; reflexivity).
  assert (Hvalid : forall block,
             Store.m_blocks Store.one_block !! mk_v4s16 10 20 30 0 = Some (Some block) ->
             Store.live (Store.heap Store.one_block) block = true).
  { intros block Hb. pose proof (eq_trans (eq_sym Hb) Hpos) as E.
    injection E as ->. exact Hlive. }
  destruct (deleteBlock_removes Store.one_block (mk_v4s16 10 20 30 0) Hvalid)
    as (Hdone & _ & Hget & Hblock).
  split; [ exact Hlive | ].
  split; [ exact Hdone | ].
  split; [ exact Hget | ].
  exact (proj1 (Hblock 1%positive Hpos)).
Defined.

(** X14. A removal touches one coordinate and one block: every other
    coordinate keeps its entry, and every block other than the one the
    coordinate pointed to keeps its state. *)
Theorem deleteBlock_frame (m : Store.Map) (pos pos' : v4s16) (a : Store.addr) :
  (pos <> pos' ->
     Store.m_blocks (Store.c_map (Store.deleteBlock m pos)) !! pos'
     = Store.m_blocks m !! pos'
     /\ Store.get (Store.c_map (Store.deleteBlock m pos)) pos' = Store.get m pos')
  /\ (Store.m_blocks m !! pos <> Some (Some a) ->
        Store.heap (Store.c_map (Store.deleteBlock m pos)) !! a = Store.heap m !! a).
Proof.
  destruct (deleteBlock_cases m pos)
    as [(Hpos & ->) | [(Hpos & ->) | [(b & Hpos & Hl & ->) | (b & Hpos & Hl & ->)]]];
    unfold Store.get; simpl; split; try (intros; split; reflexivity);
    try reflexivity.
  - intros Hne. rewrite (lookup_delete_ne _ _ _ Hne). auto.
  - intros Hne. rewrite (lookup_delete_ne _ _ _ Hne). auto.
  - intros Hne. rewrite Hpos in Hne.
    assert (b <> a) by congruence.
    rewrite !lookup_alter_ne by assumption. reflexivity.
Qed.

Lemma deleteBlock_frame_witness :
  mk_v4s16 10 20 30 1 <> mk_v4s16 10 20 30 0
  /\ Store.m_blocks
       (Store.c_map (Store.deleteBlock Store.one_block (mk_v4s16 10 20 30 1)))
       !! mk_v4s16 10 20 30 0
     = Store.m_blocks Store.one_block !! mk_v4s16 10 20 30 0
  /\ Store.m_blocks Store.one_block !! mk_v4s16 10 20 30 1 <> Some (Some 1%positive)
  /\ Store.heap
       (Store.c_map (Store.deleteBlock Store.one_block (mk_v4s16 10 20 30 1)))
       !! 1%positive
     = Store.heap Store.one_block !! 1%positive.
Proof.
  assert (Hne : mk_v4s16 10 20 30 1 <> mk_v4s16 10 20 30 0) by discriminate.
  assert (Hno : Store.m_blocks Store.one_block !! mk_v4s16 10 20 30 1
                <> Some (Some 1%positive)) by (vm_compute; discriminate).
  split; [ exact Hne | ].
  split.
  { exact (proj1 (proj1 (deleteBlock_frame Store.one_block (mk_v4s16 10 20 30 1)
                           (mk_v4s16 10 20 30 0) 1%positive) Hne)). }
  split; [ exact Hno | ].
  exact (proj2 (deleteBlock_frame Store.one_block (mk_v4s16 10 20 30 1)
                  (mk_v4s16 10 20 30 0) 1%positive) Hno).
Defined.

(** X15. Removing twice is removing once: after a removal that
    returned, a second removal of the same coordinate returns at once
    and changes nothing. *)
Theorem deleteBlock_twice (m : Store.Map) (pos : v4s16) :
  Store.c_pc (Store.deleteBlock m pos) = Store.Done ->
  Store.deleteBlock (Store.c_map (Store.deleteBlock m pos)) pos
  = Store.mk_config pos Store.Done (Store.c_map (Store.deleteBlock m pos)).
Proof.
  intros Hdone. apply deleteBlock_absent.
  destruct (deleteBlock_cases m pos)
    as [(Hpos & E) | [(Hpos & E) | [(b & Hpos & Hl & E) | (b & Hpos & Hl & E)]]];
    rewrite E in *; simpl in *.
  - exact Hpos.
  - apply lookup_delete_eq.
  - apply lookup_delete_eq.
  - discriminate Hdone.
Qed.

Lemma deleteBlock_twice_witness :
  Store.c_pc (Store.deleteBlock Store.one_block (mk_v4s16 10 20 30 0)) = Store.Done
  /\ Store.deleteBlock
       (Store.c_map (Store.deleteBlock Store.one_block (mk_v4s16 10 20 30 0)))
       (mk_v4s16 10 20 30 0)
     = Store.mk_config (mk_v4s16 10 20 30 0) Store.Done
         (Store.c_map (Store.deleteBlock Store.one_block (mk_v4s16 10 20 30 0))).
Proof.
  assert (H : Store.c_pc (Store.deleteBlock Store.one_block (mk_v4s16 10 20 30 0))
              = Store.Done) by (vm_compute; reflexivity).
  split; [ exact H | ].
  exact (deleteBlock_twice Store.one_block (mk_v4s16 10 20 30 0) H).
Defined.

Section StoreCommute.

Import Store.

Lemma live_alter_ne (f : MapBlock -> MapBlock) (h : gmap addr MapBlock) (a b : addr) :
  a <> b -> live (alter f a h) b = live h b.
Proof. intros Hne. unfold live. rewrite lookup_alter_ne by exact Hne. reflexivity. Qed.

Lemma removed_blocks_commute (h : gmap addr MapBlock) (a1 a2 : addr) :
  a1 <> a2 ->
  alter destroy a2 (alter makeOrphan a2 (alter destroy a1 (alter makeOrphan a1 h)))
  = alter destroy a1 (alter makeOrphan a1 (alter destroy a2 (alter makeOrphan a2 h))).
Proof.
  intros Hne. apply map_eq. intros i.
  destruct (decide (i = a1)) as [-> | H1]; [ | destruct (decide (i = a2)) as [-> | H2] ].
  - rewrite (lookup_alter_ne destroy _ a2 a1) by congruence.
    rewrite (lookup_alter_ne makeOrphan _ a2 a1) by congruence.
    rewrite !lookup_alter_eq.
    rewrite (lookup_alter_ne destroy _ a2 a1) by congruence.
    rewrite (lookup_alter_ne makeOrphan _ a2 a1) by congruence.
    reflexivity.
  - rewrite !lookup_alter_eq.
    rewrite (lookup_alter_ne destroy _ a1 a2) by congruence.
    rewrite (lookup_alter_ne makeOrphan _ a1 a2) by congruence.
    rewrite (lookup_alter_ne destroy _ a1 a2) by congruence.
    rewrite (lookup_alter_ne makeOrphan _ a1 a2) by congruence.
    rewrite !lookup_alter_eq. reflexivity.
  - rewrite !lookup_alter_ne by congruence. reflexivity.
Qed.

End StoreCommute.

(** X16. Removals of two coordinates that hold two different live
    blocks commute: in either order both return, and the table and the
    blocks end up the same. *)
Theorem deleteBlock_commute (m : Store.Map) (p1 p2 : v4s16) (a1 a2 : Store.addr) :
  p1 <> p2 -> a1 <> a2 ->
  Store.m_blocks m !! p1 = Some (Some a1) ->
  Store.m_blocks m !! p2 = Some (Some a2) ->
  Store.live (Store.heap m) a1 = true ->
  Store.live (Store.heap m) a2 = true ->
  Store.c_pc (Store.deleteBlock (Store.c_map (Store.deleteBlock m p1)) p2) = Store.Done
  /\ Store.c_pc (Store.deleteBlock (Store.c_map (Store.deleteBlock m p2)) p1) = Store.Done
  /\ Store.m_blocks (Store.c_map (Store.deleteBlock (Store.c_map (Store.deleteBlock m p1)) p2))
     = Store.m_blocks (Store.c_map (Store.deleteBlock (Store.c_map (Store.deleteBlock m p2)) p1))
  /\ Store.heap (Store.c_map (Store.deleteBlock (Store.c_map (Store.deleteBlock m p1)) p2))
     = Store.heap (Store.c_map (Store.deleteBlock (Store.c_map (Store.deleteBlock m p2)) p1)).
Proof.
  intros Hp Ha H1 H2 L1 L2.
  rewrite (deleteBlock_live m p1 a1 H1 L1), (deleteBlock_live m p2 a2 H2 L2).
  cbn [Store.c_map].
  rewrite (deleteBlock_live _ p2 a2), (deleteBlock_live _ p1 a1);
    cbn [Store.c_map Store.c_pc Store.m_blocks Store.heap].
  - split; [ reflexivity | ]. split; [ reflexivity | ].
    split; [ apply delete_delete | apply removed_blocks_commute, Ha ].
  - rewrite lookup_delete_ne by congruence. exact H1.
  - rewrite !live_alter_ne by congruence. exact L1.
  - rewrite lookup_delete_ne by congruence. exact H2.
  - rewrite !live_alter_ne by congruence. exact L2.
Qed.

(** A table of two live blocks, one at phase 0 and one at phase 1 of
    the same place. *)
Definition two_blocks : Store.Map :=
  Store.mk_Map
    (<[ mk_v4s16 10 20 30 1 := Some 2%positive ]>
       {[ mk_v4s16 10 20 30 0 := Some 1%positive ]})
    (<[ 2%positive := Store.mk_MapBlock false false ]>
       {[ 1%positive := Store.mk_MapBlock false false ]})
    [].

Lemma deleteBlock_commute_witness :
  Store.m_blocks two_blocks !! mk_v4s16 10 20 30 0 = Some (Some 1%positive)
  /\ Store.m_blocks two_blocks !! mk_v4s16 10 20 30 1 = Some (Some 2%positive)
  /\ Store.live (Store.heap two_blocks) 1%positive = true
  /\ Store.live (Store.heap two_blocks) 2%positive = true
  /\ Store.heap (Store.c_map (Store.deleteBlock
                   (Store.c_map (Store.deleteBlock two_blocks (mk_v4s16 10 20 30 0)))
                   (mk_v4s16 10 20 30 1)))
     = Store.heap (Store.c_map (Store.deleteBlock
                     (Store.c_map (Store.deleteBlock two_blocks (mk_v4s16 10 20 30 1)))
                     (mk_v4s16 10 20 30 0))).
Proof.
  assert (Hp : mk_v4s16 10 20 30 0 <> mk_v4s16 10 20 30 1) by discriminate.
  assert (Ha : 1%positive <> 2%positive) by discriminate.
  assert (H1 : Store.m_blocks two_blocks !! mk_v4s16 10 20 30 0 = Some (Some 1%positive))
    by (vm_compute; reflexivity).
  assert (H2 : Store.m_blocks two_blocks !! mk_v4s16 10 20 30 1 = Some (Some 2%positive))
    by (vm_compute; reflexivity).
  assert (L1 : Store.live (Store.heap two_blocks) 1%positive = true)
    by (vm_compute; reflexivity).
  assert (L2 : Store.live (Store.heap two_blocks) 2%positive = true)
    by (vm_compute; reflexivity).
  split; [ exact H1 | ].
  split; [ exact H2 | ].
  split; [ exact L1 | ].
  split; [ exact L2 | ].
  exact (proj2 (proj2 (proj2 (deleteBlock_commute two_blocks _ _ _ _ Hp Ha H1 H2 L1 L2)))).
Defined.

(** ** The coordinate on the wire *)

Section SerializeBytes.

Import Serialize.

Lemma land_FF (a : Z) : Z.land a 0xFF = a mod 256.
Proof. apply (Z.land_ones a 8). lia. Qed.

Lemma writeS16_be_length (data : list Z) (off : nat) (v : Z) :
  length (writeS16_be data off v) = length data.
Proof. unfold writeS16_be. rewrite !length_insert. reflexivity. Qed.

Lemma readS16_be_same (data : list Z) (off : nat) (v : Z) :
  is_s16 v -> (off + 2 <= length data)%nat ->
  readS16_be (writeS16_be data off v) off = v.
Proof.
  intros Hv Hlen. unfold readS16_be, writeS16_be.
  rewrite (list_lookup_insert_ne _ (S off) off) by lia.
  rewrite (list_lookup_insert_eq _ off) by lia.
  rewrite (list_lookup_insert_eq _ (S off)) by (rewrite length_insert; lia).
  cbn [default]. rewrite !land_FF, Z.shiftr_div_pow2, Z.shiftl_mul_pow2 by lia.
  change (2 ^ 8) with 256. solve_arith.
Qed.

Lemma readS16_be_other (data : list Z) (off off' : nat) (v : Z) :
  (off + 2 <= off' \/ off' + 2 <= off)%nat ->
  readS16_be (writeS16_be data off v) off' = readS16_be data off'.
Proof.
  intros Hdisj. unfold readS16_be, writeS16_be.
  rewrite !list_lookup_insert_ne by lia. reflexivity.
Qed.

End SerializeBytes.

(** X17. [readV4S16] gives back what [writeV4S16] wrote, and the write
    stays within the buffer's eight bytes' length, for any 16-bit
    writer and reader where a read returns the value last written at
    its offset, a write leaves values at disjoint offsets alone, and a
    write keeps the length of the buffer. *)
Theorem readV4S16_writeV4S16
    (writeS16 : list Z -> nat -> Z -> list Z) (readS16 : list Z -> nat -> Z)
    (data : list Z) (p : v4s16) :
  (forall d off v, is_s16 v -> (off + 2 <= length d)%nat ->
     readS16 (writeS16 d off v) off = v) ->
  (forall d off off' v, (off + 2 <= off' \/ off' + 2 <= off)%nat ->
     readS16 (writeS16 d off v) off' = readS16 d off') ->
  (forall d off v, length (writeS16 d off v) = length d) ->
  (8 <= length data)%nat -> v4s16_ok p ->
  Serialize.readV4S16 readS16 (Serialize.writeV4S16 writeS16 data p) = p
  /\ length (Serialize.writeV4S16 writeS16 data p) = length data.
Proof.
  intros Hsame Hother Hlen H8 (Hx & Hy & Hz & Hp).
  destruct p as [x y z q]; cbn [v4X v4Y v4Z v4P] in *.
  unfold Serialize.readV4S16, Serialize.writeV4S16; cbn [v4X v4Y v4Z v4P].
  split; [ | rewrite !Hlen; reflexivity ].
  f_equal.
  - rewrite !Hother by lia. apply Hsame; [ exact Hx | lia ].
  - rewrite !Hother by lia. apply Hsame; [ exact Hy | rewrite !Hlen; lia ].
  - rewrite !Hother by lia. apply Hsame; [ exact Hz | rewrite !Hlen; lia ].
  - apply Hsame; [ exact Hp | rewrite !Hlen; lia ].
Qed.

Lemma readV4S16_writeV4S16_witness :
  (8 <= length [0; 0; 0; 0; 0; 0; 0; 0; 170]%Z)%nat
  /\ v4s16_ok (mk_v4s16 1 (-2) 3 (-4))
  /\ Serialize.readV4S16 Serialize.readS16_be
       (Serialize.writeV4S16 Serialize.writeS16_be [0; 0; 0; 0; 0; 0; 0; 0; 170]
          (mk_v4s16 1 (-2) 3 (-4)))
     = mk_v4s16 1 (-2) 3 (-4)
  /\ Serialize.writeV4S16 Serialize.writeS16_be [0; 0; 0; 0; 0; 0; 0; 0; 170]
       (mk_v4s16 1 (-2) 3 (-4))
     = [0; 1; 255; 254; 0; 3; 255; 252; 170].
Proof.
  assert (H8 : (8 <= length [0; 0; 0; 0; 0; 0; 0; 0; 170]%Z)%nat) by (simpl; lia).
  assert (Hp : v4s16_ok (mk_v4s16 1 (-2) 3 (-4)))
    by (unfold v4s16_ok, is_s16; simpl; lia).
  split; [ exact H8 | ].
  split; [ exact Hp | ].
  split; [ | reflexivity ].
  exact (proj1 (readV4S16_writeV4S16 Serialize.writeS16_be Serialize.readS16_be
                  _ _ readS16_be_same readS16_be_other writeS16_be_length H8 Hp)).
Defined.
